(** * IBaseRepository (typeorm-base-repository.ts): a shallow embedding

    The repository facade is generic over an entity type whose [id] is a
    string (the default [IdType]).  Entities, partial entities and query
    specifications are JavaScript objects; they are modelled as association
    lists of JSON-like values.  The TypeORM [Repository] the facade wraps is
    modelled as a store of rows keyed by id together with a spy log of every
    call the facade makes on it (and on the subscription storage), so that
    the order of the calls and the absence of calls can be stated. *)

From Stdlib Require Import ZArith String List.
From stdpp Require Import base gmap list strings.
Import ListNotations.

Local Open Scope list_scope.

(** ** JavaScript values *)

Set Warnings "-register-all".

Inductive jval : Type :=
| JUndef
| JNull
| JBool (b : bool)
| JNum (n : Z)
| JStr (s : string)
| JArr (xs : list jval)
| JObj (fields : list (string * jval)).

(** A plain JavaScript object: its own properties in insertion order. *)
Abbreviation obj := (list (string * jval)).

(** JavaScript truthiness, as used by [if (query)] and
    [if (paginateOptions)]. *)
Definition truthy (v : jval) : bool :=
  match v with
  | JUndef | JNull => false
  | JBool b => b
  | JNum n => negb (Z.eqb n 0)
  | JStr s => negb (String.eqb s "")
  | JArr _ | JObj _ => true
  end.

(** Property read [o[k]]; a missing property reads as [undefined]. *)
Fixpoint obj_get (o : obj) (k : string) : jval :=
  match o with
  | [] => JUndef
  | (k', v) :: o' => if String.eqb k k' then v else obj_get o' k
  end.

(** Property read on an arbitrary value: [v[k]]. *)
Definition jget (v : jval) (k : string) : jval :=
  match v with
  | JObj o => obj_get o k
  | _ => JUndef
  end.

(** [{ ...o, [k]: v }]: an existing property keeps its position and gets
    the new value, a new one is appended. *)
Fixpoint obj_set (o : obj) (k : string) (v : jval) : obj :=
  match o with
  | [] => [(k, v)]
  | (k', v') :: o' =>
      if String.eqb k k' then (k, v) :: o' else (k', v') :: obj_set o' k v
  end.

(** [IdType] is [string]; [x.id as IdType] is a cast that does nothing at
    run time.  A typed caller always has a string there; the fallback below
    is never reached on the paths that use it, since the store rejects a
    row without a string id first. *)
Definition id_of (o : obj) : option string :=
  match obj_get o "id" with
  | JStr i => Some i
  | _ => None
  end.

Definition cast_id (v : jval) : string :=
  match v with
  | JStr i => i
  | _ => EmptyString
  end.

(** ** The store: TypeORM's [Repository<Entity>]

    TypeORM's [save] of an object carrying an id updates the row with that
    id, writing the properties that are defined and keeping the other
    columns, or inserts it when there is no such row. *)

Fixpoint obj_merge (row : obj) (patch : obj) : obj :=
  match patch with
  | [] => row
  | (k, v) :: p =>
      match v with
      | JUndef => obj_merge row p
      | _ => obj_set (obj_merge row p) k v
      end
  end.

Definition save_row (r : gmap string obj) (o : obj) : option (gmap string obj) :=
  match id_of o with
  | Some i => Some (<[i := obj_merge (default [] (r !! i)) o]> r)
  | None => None
  end.

(** [repo.save(entities)] saves every entity of the batch, or none. *)
Fixpoint save_rows (r : gmap string obj) (os : list obj) : option (gmap string obj) :=
  match os with
  | [] => Some r
  | o :: os' =>
      match save_row r o with
      | Some r' => save_rows r' os'
      | None => None
      end
  end.

Definition delete_rows (r : gmap string obj) (ids : list string) : gmap string obj :=
  foldl (fun acc i => delete i acc) r ids.

(** The rows in the store's own order. *)
Definition rows_list (r : gmap string obj) : list obj := map snd (map_to_list r).

(** [repo.findByIds(ids)]: every stored row whose id is among [ids], once,
    in the store's order. *)
Definition rows_with_ids (r : gmap string obj) (ids : list string) : list obj :=
  map snd (filter (fun kv => kv.1 ∈ ids) (map_to_list r)).

(** ** Calls recorded by the spy log *)

(** The argument of [gatewaysStorage.trigger(id | ids)]. *)
Inductive trigger_arg : Type :=
| TrigOne (id : string)
| TrigMany (ids : list string).

Definition affected_ids (a : trigger_arg) : list string :=
  match a with
  | TrigOne i => [i]
  | TrigMany l => l
  end.

(** [rels] is [None] when the facade passes no [{ relations }] option. *)
Inductive event : Type :=
| EvSaveOne (o : obj)
| EvSaveMany (os : list obj)
| EvDeleteOne (id : string)
| EvDeleteMany (ids : list string)
| EvFindOneOrFail (id : string) (rels : option (list string))
| EvFindOne (id : string) (rels : option (list string))
| EvFindByIds (ids : list string) (rels : option (list string))
| EvFind (options : jval) (rels : option (list string))
| EvPaginate (page limit : jval) (options : jval) (rels : list string)
| EvTrigger (arg : trigger_arg) (snapshot : gmap string obj).

Definition is_trigger (e : event) : bool :=
  match e with EvTrigger _ _ => true | _ => false end.

Definition is_store_read (e : event) : bool :=
  match e with
  | EvFindOneOrFail _ _ | EvFindOne _ _ | EvFindByIds _ _ | EvFind _ _
  | EvPaginate _ _ _ _ => true
  | _ => false
  end.

Record st : Type := mkSt { rows : gmap string obj; log : list event }.

(** ** Promises that may reject: a state and error monad *)

Inductive repo_error : Type :=
| EntityNotFound      (* TypeORM's findOneOrFail on a missing row *)
| StoreFailure        (* the store rejects a write *)
| ProjectionFailure.  (* parseQuery throws *)

Inductive res (A : Type) : Type :=
| Ok (a : A)
| Err (e : repo_error).
Arguments Ok {A} a.
Arguments Err {A} e.

Definition M (A : Type) : Type := st -> res A * st.

Definition ret {A} (a : A) : M A := fun s => (Ok a, s).

Definition bind {A B} (m : M A) (k : A -> M B) : M B :=
  fun s =>
    match m s with
    | (Ok a, s') => k a s'
    | (Err e, s') => (Err e, s')
    end.

Notation "'let*' x ':=' m 'in' k" := (bind m (fun x => k))
  (at level 200, x name, m at level 100, k at level 200).

Definition throw {A} (e : repo_error) : M A := fun s => (Err e, s).

Definition emit (e : event) : M unit := fun s => (Ok tt, mkSt (rows s) (log s ++ [e])).

Definition get_rows : M (gmap string obj) := fun s => (Ok (rows s), s).

Definition put_rows (r : gmap string obj) : M unit := fun s => (Ok tt, mkSt r (log s)).

(** [parseQuery] either returns the projection or throws. *)
Definition of_projection (o : option jval) : M jval :=
  match o with
  | Some v => ret v
  | None => throw ProjectionFailure
  end.

(** ** The facade: [IBaseRepository<Entity, string>]

    The collaborators the class imports are parameters of the section:
    [createTypeormRelationsArray] (relations.transform.ts), [parseQuery] and
    the [PAGINATE_*] constants (shared/domain), the where/order part of
    TypeORM's find options, and [paginate] of nestjs-typeorm-paginate.  The
    theorems below hold for every choice of them.  [options] is [undefined]
    ([JUndef]) when the caller gives none. *)

Module Facade.

Section Repository.

Variable createTypeormRelationsArray : obj -> list string.
Variable parseQuery : obj -> jval -> option jval.
Variable apply_find_options : jval -> list obj -> list obj.
Variable paginate : jval -> jval -> list obj -> jval.
Variables PAGINATE_KEY PAGINATE_PAGE PAGINATE_LIMIT : string.

(** *** TypeORM repository calls *)

Definition repo_save (o : obj) : M unit :=
  let* r := get_rows in
  match save_row r o with
  | Some r' => let* _ := put_rows r' in emit (EvSaveOne o)
  | None => throw StoreFailure
  end.

Definition repo_save_many (os : list obj) : M unit :=
  let* r := get_rows in
  match save_rows r os with
  | Some r' => let* _ := put_rows r' in emit (EvSaveMany os)
  | None => throw StoreFailure
  end.

Definition repo_delete (id : string) : M unit :=
  let* r := get_rows in
  let* _ := put_rows (delete id r) in
  emit (EvDeleteOne id).

Definition repo_delete_many (ids : list string) : M unit :=
  let* r := get_rows in
  let* _ := put_rows (delete_rows r ids) in
  emit (EvDeleteMany ids).

Definition repo_findOneOrFail (id : string) (rels : option (list string)) : M jval :=
  let* _ := emit (EvFindOneOrFail id rels) in
  let* r := get_rows in
  match r !! id with
  | Some row => ret (JObj row)
  | None => throw EntityNotFound
  end.

Definition repo_findOne (id : string) (rels : option (list string)) : M jval :=
  let* _ := emit (EvFindOne id rels) in
  let* r := get_rows in
  match r !! id with
  | Some row => ret (JObj row)
  | None => ret JUndef
  end.

Definition repo_findByIds (ids : list string) (rels : option (list string)) : M jval :=
  let* _ := emit (EvFindByIds ids rels) in
  let* r := get_rows in
  ret (JArr (map JObj (rows_with_ids r ids))).

Definition repo_find (options : jval) (rels : option (list string)) : M jval :=
  let* _ := emit (EvFind options rels) in
  let* r := get_rows in
  ret (JArr (map JObj (apply_find_options options (rows_list r)))).

Definition repo_paginate (page limit options : jval) (rels : list string) : M jval :=
  let* _ := emit (EvPaginate page limit options rels) in
  let* r := get_rows in
  ret (paginate page limit (apply_find_options options (rows_list r))).

(** [this.gatewaysStorage.trigger(arg)]: the subscription storage
    (subscription-storage.ts) is not part of this development; the call is
    recorded with its argument and the store it is made in, which is the
    store the recomputations of the notified subscriptions read. *)
Definition trigger (a : trigger_arg) : M unit :=
  fun s => (Ok tt, mkSt (rows s) (log s ++ [EvTrigger a (rows s)])).

(** *** Reads.  A supplied query is an object, hence truthy: [Some q]. *)

Definition findOneOrFail (id : string) (query : option obj) : M jval :=
  match query with
  | Some q =>
      let relations := createTypeormRelationsArray q in
      let* dbRes := repo_findOneOrFail id (Some relations) in
      of_projection (parseQuery q dbRes)
  | None => repo_findOneOrFail id None
  end.

Definition findOne (id : string) (query : option obj) : M jval :=
  match query with
  | Some q =>
      let relations := createTypeormRelationsArray q in
      let* dbRes := repo_findOne id (Some relations) in
      of_projection (parseQuery q dbRes)
  | None => repo_findOne id None
  end.

Definition findMany (ids : list string) (query : option obj) : M jval :=
  match ids with
  | [] => ret (JArr [])
  | _ =>
      match query with
      | Some q =>
          let relations := createTypeormRelationsArray q in
          let* dbRes := repo_findByIds ids (Some relations) in
          of_projection (parseQuery q dbRes)
      | None => repo_findByIds ids None
      end
  end.

Definition findAll (query : option obj) : M jval :=
  match query with
  | Some q =>
      let relations := createTypeormRelationsArray q in
      let* dbRes := repo_find JUndef (Some relations) in
      of_projection (parseQuery q dbRes)
  | None => repo_find JUndef None
  end.

Definition provisionQuery (query : obj) (options : jval) : M jval :=
  let relations := createTypeormRelationsArray query in
  let paginateOptions := obj_get query PAGINATE_KEY in
  if truthy paginateOptions
  then repo_paginate (jget paginateOptions PAGINATE_PAGE)
                     (jget paginateOptions PAGINATE_LIMIT) options relations
  else repo_find options (Some relations).

Definition query (q : obj) (options : jval) : M jval :=
  let* entities := provisionQuery q options in
  of_projection (parseQuery q entities).

(** *** Mutations *)

Definition update (id : string) (entity : obj) (query : option obj) : M jval :=
  let* _ := repo_save (obj_set entity "id" (JStr id)) in
  let* _ := trigger (TrigOne id) in
  findOneOrFail id query.

Definition upsert (entity : obj) (query : option obj) : M jval :=
  let* _ := repo_save entity in
  let* _ := trigger (TrigOne (cast_id (obj_get entity "id"))) in
  findOneOrFail (cast_id (obj_get entity "id")) query.

Definition entity_ids (entities : list obj) : list string :=
  map (fun e => cast_id (obj_get e "id")) entities.

Definition upsertMany (entities : list obj) (query : option obj) : M jval :=
  match entities with
  | [] => ret (JArr [])
  | _ =>
      let* _ := repo_save_many entities in
      let ids := entity_ids entities in
      let* _ := trigger (TrigMany ids) in
      findMany ids query
  end.

Definition delete (id : string) : M string :=
  let* _ := repo_delete id in
  let* _ := trigger (TrigOne id) in
  ret id.

Definition deleteMany (ids : list string) : M (list string) :=
  match ids with
  | [] => ret []
  | _ =>
      let* _ := repo_delete_many ids in
      let* _ := trigger (TrigMany ids) in
      ret ids
  end.


(** *** The recomputations of [subscriptions]

    [oneEntitySubscription], [manyEntitiesSubscription] and
    [querySubscription] hand these listeners to the subscription storage
    together with the query; each call of a listener recomputes the
    relations from the query and reads the store. *)

Definition oneEntityListener (id : string) (query : obj) : M jval :=
  let relations := createTypeormRelationsArray query in
  repo_findOneOrFail id (Some relations).

Definition manyEntitiesListener (ids : list string) (query : obj) : M jval :=
  let relations := createTypeormRelationsArray query in
  repo_findByIds ids (Some relations).

Definition querySubscriptionListener (query : obj) (options : jval) : M jval :=
  provisionQuery query options.

(** *** Reads leave the store alone and only call the store's readers *)

Definition read_only {A} (m : M A) : Prop :=
  forall s, rows (snd (m s)) = rows s /\
    exists evs, log (snd (m s)) = log s ++ evs /\
      Forall (fun e => is_store_read e = true) evs.

(** A computation that makes no call on the subscription storage: it
    leaves the store as it is and only reads it. *)
Definition no_trigger {A} (m : M A) : Prop :=
  forall s, rows (snd (m s)) = rows s /\
    exists evs, log (snd (m s)) = log s ++ evs /\
      Forall (fun e => is_trigger e = false /\ is_store_read e = true) evs.

End Repository.

End Facade.
Import Facade.

(** ** Field-wise reading of a TypeORM save *)

(** The first defined value a patch gives to a property. *)
Fixpoint first_defined (p : obj) (k : string) : option jval :=
  match p with
  | [] => None
  | (k', v) :: p' =>
      if String.eqb k k'
      then match v with JUndef => first_defined p' k | _ => Some v end
      else first_defined p' k
  end.

(** ** The REST clients (ServeAdminRestClient, HandleRestClient)

    Each method posts [{ [QUERY_KEY]: query, [DTO_KEY]: dto }] to
    [`${apiUrl}/<method>`], where [apiUrl] is
    [`${environment.apiUrl}/${InvolvemintRoutes.<route>}`].  The request
    is modelled as the url and body handed to [HttpClient.post]; the
    constants of shared/domain are parameters. *)


Section RestClients.

Variables environment_apiUrl route_spAdmin route_handle QUERY_KEY DTO_KEY : string.












End RestClients.

(** ** Concrete collaborators, to run the facade on concrete inputs *)

(** Modelled from the spec (section 4.1): [createTypeormRelationsArray] of
    relations.transform.ts, which is not part of this development.  Every
    nested (non-[true]) key [k] gives [k] and [k.p] for each path [p] of its
    sub-query. *)
Fixpoint relation_paths (v : jval) : list string :=
  match v with
  | JObj o =>
      (fix go (o : obj) : list string :=
         match o with
         | [] => []
         | (k, w) :: o' =>
             match w with
             | JObj _ =>
                 (k :: map (fun p => String.append k (String.append "." p))
                           (relation_paths w)) ++ go o'
             | _ => go o'
             end
         end) o
  | _ => []
  end.

(** The pagination constants of shared/domain.  The spec names the page
    and limit entries [page] and [limit]; the name of the key holding them
    is not given, and only its being different from those two matters. *)
Definition paginate_key : string := "__paginate".
Definition paginate_page : string := "page".
Definition paginate_limit : string := "limit".

Definition relations_of (q : obj) : list string :=
  relation_paths (JObj (filter (fun kv => negb (String.eqb kv.1 paginate_key)) q)).

(** A one-level projector: the truthy keys of the query, read on each row;
    a page keeps its metadata and has its items projected. *)
Definition pick (q : obj) (o : obj) : obj :=
  map (fun kw => (kw.1, obj_get o kw.1))
      (filter (fun kw => truthy kw.2 && negb (String.eqb kw.1 paginate_key)) q).

Definition pick_row (q : obj) (x : jval) : jval :=
  match x with
  | JObj o => JObj (pick q o)
  | y => y
  end.

Definition shallow_parse (q : obj) (v : jval) : option jval :=
  match v with
  | JArr xs => Some (JArr (map (pick_row q) xs))
  | JObj o =>
      if truthy (obj_get q paginate_key)
      then Some (JObj (obj_set o "items"
                         (match obj_get o "items" with
                          | JArr xs => JArr (map (pick_row q) xs)
                          | y => y
                          end)))
      else Some (JObj (pick q o))
  | y => Some y
  end.

Definition no_options (_ : jval) (rs : list obj) : list obj := rs.

Definition page_of (page limit : jval) (rs : list obj) : jval :=
  match page, limit with
  | JNum p, JNum l =>
      JObj [("items", JArr (map JObj (take (Z.to_nat l) (drop (Z.to_nat ((p - 1) * l)) rs))));
            ("meta", JObj [("totalItems", JNum (Z.of_nat (length rs)));
                           ("currentPage", JNum p)])]%string
  | _, _ => JObj [("items", JArr (map JObj rs))]%string
  end.

Definition row_a : obj := [("id", JStr "a"); ("name", JStr "Ann"); ("age", JNum 30)]%string.
Definition row_b : obj := [("id", JStr "b"); ("name", JStr "Bob"); ("age", JNum 41)]%string.
Definition store_ab : st := mkSt (<["a" := row_a]> (<["b" := row_b]> ∅)) [].

(** ** Properties of the object operations *)

Lemma obj_get_set (o : obj) k v k' :
  obj_get (obj_set o k v) k' = if String.eqb k' k then v else obj_get o k'.
Proof.
  induction o as [|[k1 v1] o IH]; simpl; [reflexivity|].
  destruct (String.eqb k k1) eqn:E.
  - apply String.eqb_eq in E; subst k1. simpl.
    destruct (String.eqb k' k); reflexivity.
  - simpl. rewrite IH.
    destruct (String.eqb k' k1) eqn:E1; [|reflexivity].
    apply String.eqb_eq in E1; subst k'.
    rewrite String.eqb_sym, E. reflexivity.
Qed.

Lemma obj_set_keys (o : obj) k v k' :
  In k' (map fst (obj_set o k v)) -> k' = k \/ In k' (map fst o).
Proof.
  induction o as [|[k1 v1] o IH]; simpl.
  - intros [H|[]]; left; congruence.
  - destruct (String.eqb k k1) eqn:E; simpl.
    + apply String.eqb_eq in E; subst k1. intros [H|H]; [left|right; right]; auto.
    + intros [H|H]; [right; left; exact H|].
      destruct (IH H); [left|right; right]; assumption.
Qed.

Lemma obj_get_merge_defined (row p : obj) k :
  obj_get p k <> JUndef -> obj_get (obj_merge row p) k = obj_get p k.
Proof.
  induction p as [|[k1 v1] p IH]; simpl; [congruence|].
  destruct (String.eqb k k1) eqn:E.
  - apply String.eqb_eq in E; subst k1. intros Hv.
    destruct v1; try congruence; rewrite obj_get_set, String.eqb_refl; reflexivity.
  - intros Hv.
    destruct v1; try (rewrite obj_get_set, E); apply IH; exact Hv.
Qed.

Lemma obj_get_merge_absent (row p : obj) k :
  ~ In k (map fst p) -> obj_get (obj_merge row p) k = obj_get row k.
Proof.
  induction p as [|[k1 v1] p IH]; simpl; [reflexivity|].
  intros Hn.
  assert (Hk : String.eqb k k1 = false)
    by (apply String.eqb_neq; intros ->; apply Hn; left; reflexivity).
  destruct v1; try (rewrite obj_get_set, Hk); apply IH; tauto.
Qed.

Lemma id_of_set_id (entity : obj) id :
  id_of (obj_set entity "id" (JStr id)) = Some id.
Proof. unfold id_of. rewrite obj_get_set. reflexivity. Qed.

Lemma obj_get_merge (row p : obj) k :
  obj_get (obj_merge row p) k =
    match first_defined p k with Some v => v | None => obj_get row k end.
Proof.
  induction p as [|[k1 v1] p IH]; simpl; [reflexivity|].
  destruct (String.eqb k k1) eqn:E.
  - apply String.eqb_eq in E; subst k1.
    destruct v1; try (rewrite obj_get_set, String.eqb_refl; reflexivity). exact IH.
  - destruct v1; try (rewrite obj_get_set, E); exact IH.
Qed.

Lemma delete_rows_lookup (r : gmap string obj) ids i :
  delete_rows r ids !! i = if decide (i ∈ ids) then None else r !! i.
Proof.
  unfold delete_rows. revert r. induction ids as [|j ids IH]; intros r; simpl.
  - destruct (decide (i ∈ [])) as [Hin|]; [inversion Hin|reflexivity].
  - rewrite IH. destruct (decide (i ∈ ids)) as [Hi|Hi];
      destruct (decide (i ∈ j :: ids)) as [Hj|Hj]; try reflexivity.
    + exfalso. apply Hj. apply elem_of_cons; right. exact Hi.
    + apply elem_of_cons in Hj as [->|Hj]; [|contradiction].
      apply lookup_delete_eq.
    + rewrite lookup_delete_ne; [reflexivity|].
      intros ->. apply Hj. apply elem_of_cons; left; reflexivity.
Qed.

Lemma rows_with_ids_none (r : gmap string obj) ids :
  (forall i, i ∈ ids -> r !! i = None) -> rows_with_ids r ids = [].
Proof.
  intros H. unfold rows_with_ids.
  assert (Hf : Forall (fun kv => kv.1 ∉ ids) (map_to_list r)).
  { apply Forall_forall. intros [k v] Hkv Hk. simpl in Hk.
    apply elem_of_map_to_list in Hkv. rewrite (H k Hk) in Hkv. discriminate. }
  induction Hf as [|kv l Hkv _ IHf]; [reflexivity|].
  rewrite filter_cons. destruct (decide (kv.1 ∈ ids)); [contradiction|exact IHf].
Qed.

Lemma save_rows_keeps_keys (r r' : gmap string obj) es j :
  save_rows r es = Some r' -> is_Some (r !! j) -> is_Some (r' !! j).
Proof.
  revert r. induction es as [|e es IH]; intros r Hs Hj; simpl in Hs.
  - injection Hs as <-. exact Hj.
  - unfold save_row in Hs. destruct (id_of e) as [i|]; [|discriminate].
    apply (IH _ Hs). destruct (decide (j = i)) as [->|Hne].
    + rewrite lookup_insert_eq. eexists. reflexivity.
    + rewrite lookup_insert_ne; [exact Hj|congruence].
Qed.

Lemma save_rows_lookup (r r' : gmap string obj) es :
  save_rows r es = Some r' ->
  (forall i, i ∈ entity_ids es -> is_Some (r' !! i)) /\
  (forall i, i ∉ entity_ids es -> r' !! i = r !! i).
Proof.
  revert r. induction es as [|e es IH]; intros r Hs; simpl in Hs.
  - injection Hs as <-. split; [intros i Hi; inversion Hi|reflexivity].
  - unfold save_row in Hs. destruct (id_of e) as [i0|] eqn:Hid; [|discriminate].
    destruct (IH _ Hs) as [Hin Hout].
    assert (Hc : cast_id (obj_get e "id") = i0)
      by (unfold id_of in Hid; destruct (obj_get e "id"); simpl; congruence).
    simpl. rewrite Hc. split.
    + intros i Hi. apply elem_of_cons in Hi as [->|Hi]; [|exact (Hin i Hi)].
      destruct (decide (i0 ∈ entity_ids es)) as [Hd|Hd]; [exact (Hin i0 Hd)|].
      rewrite (Hout i0 Hd), lookup_insert_eq. eexists. reflexivity.
    + intros i Hi. rewrite (Hout i); [|intros Hd; apply Hi; apply elem_of_cons; right; exact Hd].
      apply lookup_insert_ne. intros ->. apply Hi. apply elem_of_cons; left; reflexivity.
Qed.

(** ** Runs of the facade operations *)

Section Runs.

Variable createTypeormRelationsArray : obj -> list string.
Variable parseQuery : obj -> jval -> option jval.
Variable apply_find_options : jval -> list obj -> list obj.
Variable paginate : jval -> jval -> list obj -> jval.
Variables PAGINATE_KEY PAGINATE_PAGE PAGINATE_LIMIT : string.

Local Abbreviation findOneOrFail := (findOneOrFail createTypeormRelationsArray parseQuery).
Local Abbreviation findOne := (findOne createTypeormRelationsArray parseQuery).
Local Abbreviation findMany := (findMany createTypeormRelationsArray parseQuery).
Local Abbreviation findAll := (findAll createTypeormRelationsArray parseQuery apply_find_options).
Local Abbreviation query := (query createTypeormRelationsArray parseQuery apply_find_options
                           paginate PAGINATE_KEY PAGINATE_PAGE PAGINATE_LIMIT).
Local Abbreviation update := (update createTypeormRelationsArray parseQuery).
Local Abbreviation upsert := (upsert createTypeormRelationsArray parseQuery).
Local Abbreviation upsertMany := (upsertMany createTypeormRelationsArray parseQuery).

Ltac run := repeat (unfold bind, ret, throw, emit, get_rows, put_rows, trigger in *; cbn).

Lemma update_run s id entity q :
  let o := obj_set entity "id" (JStr id) in
  let r' := <[id := obj_merge (default [] (rows s !! id)) o]> (rows s) in
  update id entity q s =
    findOneOrFail id q (mkSt r' (log s ++ [EvSaveOne o; EvTrigger (TrigOne id) r'])).
Proof.
  intros o r'. unfold Facade.update, repo_save. run.
  unfold save_row. rewrite id_of_set_id. run.
  rewrite <- app_assoc. reflexivity.
Qed.

Lemma upsert_run s entity i q :
  id_of entity = Some i ->
  let r' := <[i := obj_merge (default [] (rows s !! i)) entity]> (rows s) in
  upsert entity q s =
    findOneOrFail i q (mkSt r' (log s ++ [EvSaveOne entity; EvTrigger (TrigOne i) r'])).
Proof.
  intros Hi r'. unfold Facade.upsert, repo_save. run.
  unfold save_row. rewrite Hi. run.
  assert (Hc : cast_id (obj_get entity "id") = i)
    by (unfold id_of in Hi; destruct (obj_get entity "id"); simpl; congruence).
  rewrite Hc, <- app_assoc. reflexivity.
Qed.

Lemma save_rows_some (r : gmap string obj) (es : list obj) :
  Forall (fun e => is_Some (id_of e)) es -> is_Some (save_rows r es).
Proof.
  intros H. revert r. induction H as [|e es [i Hi] _ IH]; intros r; simpl.
  - eexists; reflexivity.
  - unfold save_row at 1. rewrite Hi. apply IH.
Qed.

Lemma entity_ids_spec (es : list obj) :
  Forall (fun e => is_Some (id_of e)) es ->
  Forall2 (fun e i => id_of e = Some i) es (entity_ids es).
Proof.
  induction 1 as [|e es [i Hi] _ IH]; simpl; constructor; [|exact IH].
  unfold id_of in *. destruct (obj_get e "id"); simpl; congruence.
Qed.

Lemma upsertMany_run s es q :
  es <> [] -> Forall (fun e => is_Some (id_of e)) es ->
  exists r', save_rows (rows s) es = Some r' /\
    upsertMany es q s =
      findMany (entity_ids es) q
        (mkSt r' (log s ++ [EvSaveMany es; EvTrigger (TrigMany (entity_ids es)) r'])).
Proof.
  intros Hne Hids. destruct (save_rows_some (rows s) es Hids) as [r' Hr'].
  exists r'. split; [exact Hr'|].
  destruct es as [|e es']; [congruence|].
  unfold Facade.upsertMany, repo_save_many, bind, get_rows, put_rows, emit, trigger.
  cbn -[save_rows]. rewrite Hr'. cbn.
  rewrite <- app_assoc. reflexivity.
Qed.

Lemma delete_run s id :
  let r' := stdpp.base.delete id (rows s) in
  Facade.delete id s =
    (Ok id, mkSt r' (log s ++ [EvDeleteOne id; EvTrigger (TrigOne id) r'])).
Proof.
  intros r'. unfold Facade.delete, repo_delete. run.
  rewrite <- app_assoc. reflexivity.
Qed.

Lemma deleteMany_run s ids :
  ids <> [] ->
  let r' := delete_rows (rows s) ids in
  deleteMany ids s =
    (Ok ids, mkSt r' (log s ++ [EvDeleteMany ids; EvTrigger (TrigMany ids) r'])).
Proof.
  intros Hne r'. destruct ids as [|i ids']; [congruence|].
  unfold deleteMany, repo_delete_many. run.
  rewrite <- app_assoc. reflexivity.
Qed.

Lemma findOneOrFail_run s id q :
  findOneOrFail id q s =
    match q with
    | Some q' =>
        (match rows s !! id with
         | Some row =>
             match parseQuery q' (JObj row) with
             | Some v => Ok v
             | None => Err ProjectionFailure
             end
         | None => Err EntityNotFound
         end,
         mkSt (rows s) (log s ++ [EvFindOneOrFail id (Some (createTypeormRelationsArray q'))]))
    | None =>
        (match rows s !! id with
         | Some row => Ok (JObj row)
         | None => Err EntityNotFound
         end,
         mkSt (rows s) (log s ++ [EvFindOneOrFail id None]))
    end.
Proof.
  destruct q as [q'|]; unfold Facade.findOneOrFail, repo_findOneOrFail; run;
    destruct (rows s !! id) as [row|]; run; try reflexivity.
  unfold of_projection. destruct (parseQuery q' (JObj row)); run; reflexivity.
Qed.

Lemma findOne_run s id q :
  findOne id q s =
    match q with
    | Some q' =>
        (match parseQuery q' (match rows s !! id with Some row => JObj row | None => JUndef end) with
         | Some v => Ok v
         | None => Err ProjectionFailure
         end,
         mkSt (rows s) (log s ++ [EvFindOne id (Some (createTypeormRelationsArray q'))]))
    | None =>
        (Ok (match rows s !! id with Some row => JObj row | None => JUndef end),
         mkSt (rows s) (log s ++ [EvFindOne id None]))
    end.
Proof.
  destruct q as [q'|]; unfold Facade.findOne, repo_findOne; run;
    destruct (rows s !! id) as [row|]; run; try reflexivity;
    unfold of_projection; match goal with |- context [parseQuery ?a ?b] => destruct (parseQuery a b) end;
    run; reflexivity.
Qed.

Lemma query_run s q opts :
  query q opts s =
    (match parseQuery q
             (if truthy (obj_get q PAGINATE_KEY)
              then paginate (jget (obj_get q PAGINATE_KEY) PAGINATE_PAGE)
                            (jget (obj_get q PAGINATE_KEY) PAGINATE_LIMIT)
                            (apply_find_options opts (rows_list (rows s)))
              else JArr (map JObj (apply_find_options opts (rows_list (rows s))))) with
     | Some v => Ok v
     | None => Err ProjectionFailure
     end,
     mkSt (rows s)
       (log s ++ [if truthy (obj_get q PAGINATE_KEY)
                  then EvPaginate (jget (obj_get q PAGINATE_KEY) PAGINATE_PAGE)
                                  (jget (obj_get q PAGINATE_KEY) PAGINATE_LIMIT)
                                  opts (createTypeormRelationsArray q)
                  else EvFind opts (Some (createTypeormRelationsArray q))])).
Proof.
  unfold Facade.query, provisionQuery.
  destruct (truthy (obj_get q PAGINATE_KEY));
    unfold repo_paginate, repo_find; run; unfold of_projection;
    match goal with |- context [parseQuery ?a ?b] => destruct (parseQuery a b) end;
    run; reflexivity.
Qed.

(** *** Read-only computations *)

Lemma read_only_bind {A B} (m : M A) (k : A -> M B) :
  read_only m -> (forall a, read_only (k a)) -> read_only (bind m k).
Proof.
  intros Hm Hk s. unfold bind. specialize (Hm s).
  destruct (m s) as [[a|e] s1]; simpl in *; destruct Hm as [Hr [evs [Hl Hf]]].
  - destruct (Hk a s1) as [Hr2 [evs2 [Hl2 Hf2]]]. split; [congruence|].
    exists (evs ++ evs2). split.
    + rewrite Hl2, Hl, app_assoc. reflexivity.
    + apply Forall_app; split; assumption.
  - split; [exact Hr|]. exists evs. split; assumption.
Qed.

Lemma read_only_ret {A} (a : A) : read_only (ret a).
Proof. intros s. split; [reflexivity|]. exists []. rewrite app_nil_r. auto. Qed.

Lemma read_only_throw {A} e : read_only (@throw A e).
Proof. intros s. split; [reflexivity|]. exists []. rewrite app_nil_r. auto. Qed.

Lemma read_only_get_rows : read_only get_rows.
Proof. intros s. split; [reflexivity|]. exists []. rewrite app_nil_r. auto. Qed.

Lemma read_only_emit e : is_store_read e = true -> read_only (emit e).
Proof. intros He s. split; [reflexivity|]. exists [e]. auto. Qed.

Lemma read_only_of_projection o : read_only (of_projection o).
Proof. destruct o; [apply read_only_ret|apply read_only_throw]. Qed.

Ltac ro :=
  repeat match goal with
  | |- read_only (bind _ _) => apply read_only_bind; [|intros ?]
  | |- read_only (ret _) => apply read_only_ret
  | |- read_only (throw _) => apply read_only_throw
  | |- read_only get_rows => apply read_only_get_rows
  | |- read_only (emit _) => apply read_only_emit; reflexivity
  | |- read_only (of_projection _) => apply read_only_of_projection
  | |- read_only (match ?x with _ => _ end) => destruct x
  end.

Lemma findOneOrFail_read_only id q : read_only (findOneOrFail id q).
Proof. unfold Facade.findOneOrFail, repo_findOneOrFail. ro. Qed.

Lemma findOne_read_only id q : read_only (findOne id q).
Proof. unfold Facade.findOne, repo_findOne. ro. Qed.

Lemma findMany_read_only ids q : read_only (findMany ids q).
Proof. unfold Facade.findMany, repo_findByIds. ro. Qed.

Lemma findAll_read_only q : read_only (findAll q).
Proof. unfold Facade.findAll, repo_find. ro. Qed.

Lemma query_read_only q opts : read_only (query q opts).
Proof. unfold Facade.query, provisionQuery, repo_paginate, repo_find. ro. Qed.

Lemma read_only_no_trigger {A} (m : M A) : read_only m -> no_trigger m.
Proof.
  intros H s. destruct (H s) as [Hr [evs [Hl Hf]]]. split; [exact Hr|].
  exists evs. split; [exact Hl|].
  eapply Forall_impl; [exact Hf|]. intros e He. split; [|exact He].
  destruct e; simpl in *; congruence.
Qed.

(** ** The claims *)

(** C1: every mutation (update, upsert, upsertMany on a non-empty batch,
    delete, deleteMany on a non-empty list) calls the invalidation trigger
    after the store write, in the store the write produced, and only then
    computes what it returns, from that same store, which it leaves as it
    is: the caller's value is never older than the subscribers' state. *)
Theorem mutations_trigger_between_write_and_result (s : st) :
  (forall id entity q,
     let o := obj_set entity "id" (JStr id) in
     exists r', save_row (rows s) o = Some r' /\
       update id entity q s =
         findOneOrFail id q (mkSt r' (log s ++ [EvSaveOne o; EvTrigger (TrigOne id) r'])) /\
       rows (snd (update id entity q s)) = r') /\
  (forall entity i q, id_of entity = Some i ->
     exists r', save_row (rows s) entity = Some r' /\
       upsert entity q s =
         findOneOrFail i q (mkSt r' (log s ++ [EvSaveOne entity; EvTrigger (TrigOne i) r'])) /\
       rows (snd (upsert entity q s)) = r') /\
  (forall es q, es <> [] -> Forall (fun e => is_Some (id_of e)) es ->
     exists r', save_rows (rows s) es = Some r' /\
       upsertMany es q s =
         findMany (entity_ids es) q
           (mkSt r' (log s ++ [EvSaveMany es; EvTrigger (TrigMany (entity_ids es)) r'])) /\
       rows (snd (upsertMany es q s)) = r') /\
  (forall id,
     let r' := stdpp.base.delete id (rows s) in
     Facade.delete id s = (Ok id, mkSt r' (log s ++ [EvDeleteOne id; EvTrigger (TrigOne id) r']))) /\
  (forall ids, ids <> [] ->
     let r' := delete_rows (rows s) ids in
     deleteMany ids s = (Ok ids, mkSt r' (log s ++ [EvDeleteMany ids; EvTrigger (TrigMany ids) r']))).
Proof.
  split; [|split; [|split; [|split]]].
  - intros id entity q o. subst o. eexists. split.
    + unfold save_row. rewrite id_of_set_id. reflexivity.
    + rewrite update_run. split; [reflexivity|].
      apply findOneOrFail_read_only.
  - intros entity i q Hi. eexists. split.
    + unfold save_row. rewrite Hi. reflexivity.
    + rewrite (upsert_run s entity i q Hi). split; [reflexivity|].
      apply findOneOrFail_read_only.
  - intros es q Hne Hids.
    destruct (upsertMany_run s es q Hne Hids) as [r' [Hr' Hrun]].
    exists r'. split; [exact Hr'|]. rewrite Hrun. split; [reflexivity|].
    apply findMany_read_only.
  - intros id. apply delete_run.
  - intros ids Hne. apply deleteMany_run. exact Hne.
Qed.

(** C2: [update id partial q] saves the partial entity under [id] with
    upsert-by-id semantics (defined fields of the partial are written, the
    fields it does not name keep their values, other rows are untouched),
    triggers exactly [id], and returns [findOneOrFail id q] run on the
    written store: projected through [q] when one is given. *)
Theorem update_partial_upsert_by_id (s : st) id entity q :
  let o := obj_set entity "id" (JStr id) in
  let row := obj_merge (default [] (rows s !! id)) o in
  let r' := <[id := row]> (rows s) in
  update id entity q s =
    findOneOrFail id q (mkSt r' (log s ++ [EvSaveOne o; EvTrigger (TrigOne id) r'])) /\
  (forall k, k <> "id"%string -> obj_get entity k <> JUndef -> obj_get row k = obj_get entity k) /\
  (forall k old, rows s !! id = Some old -> k <> "id"%string -> ~ In k (map fst entity) ->
     obj_get row k = obj_get old k) /\
  (forall i, i <> id -> r' !! i = rows s !! i).
Proof.
  intros o row r'. split; [apply update_run|]. split; [|split].
  - intros k Hk Hdef.
    assert (Ho : obj_get o k = obj_get entity k).
    { unfold o. rewrite obj_get_set.
      destruct (String.eqb k "id") eqn:E; [apply String.eqb_eq in E; congruence|reflexivity]. }
    unfold row. rewrite obj_get_merge_defined; congruence.
  - intros k old Hold Hk Hn. unfold row. rewrite Hold. simpl.
    apply obj_get_merge_absent. intros Hin.
    destruct (obj_set_keys entity "id" (JStr id) k Hin); contradiction.
  - intros i Hi. unfold r'. apply lookup_insert_ne. congruence.
Qed.

(** C4: [findMany []], [upsertMany []] and [deleteMany []] return an empty
    list and leave the state untouched, with or without a query: no call
    reaches the store. *)
Theorem empty_inputs_short_circuit (s : st) (q : option obj) :
  findMany [] q s = (Ok (JArr []), s) /\
  upsertMany [] q s = (Ok (JArr []), s) /\
  deleteMany [] s = (Ok [], s).
Proof. repeat split. Qed.

(** C5: [upsertMany es q] on a non-empty batch of entities carrying ids
    saves the whole batch, triggers once with the list of their ids, and
    returns [findMany] of exactly those ids on the written store. *)
Theorem upsertMany_batch_write_trigger_reread (s : st) es q :
  es <> [] -> Forall (fun e => is_Some (id_of e)) es ->
  Forall2 (fun e i => id_of e = Some i) es (entity_ids es) /\
  exists r', save_rows (rows s) es = Some r' /\
    upsertMany es q s =
      findMany (entity_ids es) q
        (mkSt r' (log s ++ [EvSaveMany es; EvTrigger (TrigMany (entity_ids es)) r'])).
Proof.
  intros Hne Hids. split; [apply entity_ids_spec; exact Hids|].
  apply upsertMany_run; assumption.
Qed.

(** C6: [delete id] deletes the row, triggers exactly [id] and returns
    [id]; [deleteMany ids] on a non-empty list deletes those rows, triggers
    with the whole list and returns it. *)
Theorem delete_and_deleteMany_results (s : st) id ids :
  Facade.delete id s =
    (Ok id, mkSt (stdpp.base.delete id (rows s))
              (log s ++ [EvDeleteOne id; EvTrigger (TrigOne id) (stdpp.base.delete id (rows s))])) /\
  (ids <> [] ->
   deleteMany ids s =
     (Ok ids, mkSt (delete_rows (rows s) ids)
                (log s ++ [EvDeleteMany ids; EvTrigger (TrigMany ids) (delete_rows (rows s) ids)]))).
Proof. split; [apply delete_run|apply deleteMany_run]. Qed.

(** C7: [findOneOrFail id q] reads the row with the relations extracted
    from [q] and returns its projection through [q]; it rejects with
    [EntityNotFound] exactly when no row has that id (the unprojected
    variant too), and that rejection is what the caller receives. *)
Theorem findOneOrFail_projects_or_not_found (s : st) id q :
  findOneOrFail id (Some q) s =
    (match rows s !! id with
     | Some row =>
         match parseQuery q (JObj row) with
         | Some v => Ok v
         | None => Err ProjectionFailure
         end
     | None => Err EntityNotFound
     end,
     mkSt (rows s) (log s ++ [EvFindOneOrFail id (Some (createTypeormRelationsArray q))])) /\
  (fst (findOneOrFail id (Some q) s) = Err EntityNotFound <-> rows s !! id = None) /\
  (fst (findOneOrFail id None s) = Err EntityNotFound <-> rows s !! id = None).
Proof.
  rewrite !findOneOrFail_run. split; [reflexivity|].
  destruct (rows s !! id) as [row|]; simpl.
  - destruct (parseQuery q (JObj row)); simpl; split; split; discriminate.
  - split; split; reflexivity.
Qed.

(** C9: the record [update id partial] writes is the partial entity with
    its [id] property overwritten by the argument, whatever id the partial
    carries, and the stored row under [id] has that id. *)
Theorem update_saves_argument_id (s : st) id entity q :
  let s' := snd (update id entity q s) in
  exists o row,
    log s' !! length (log s) = Some (EvSaveOne o) /\
    o = obj_set entity "id" (JStr id) /\
    obj_get o "id" = JStr id /\
    (forall k, k <> "id"%string -> obj_get o k = obj_get entity k) /\
    rows s' !! id = Some row /\
    obj_get row "id" = JStr id.
Proof.
  intros s'. subst s'. rewrite update_run.
  set (o := obj_set entity "id" (JStr id)).
  set (row := obj_merge (default [] (rows s !! id)) o).
  set (s1 := mkSt (<[id := row]> (rows s))
                  (log s ++ [EvSaveOne o; EvTrigger (TrigOne id) (<[id := row]> (rows s))])).
  destruct (findOneOrFail_read_only id q s1) as [Hr [evs [Hl _]]].
  assert (Hid : obj_get o "id" = JStr id) by (unfold o; rewrite obj_get_set; reflexivity).
  exists o, row. rewrite Hl, Hr. simpl.
  split; [|split; [reflexivity|split; [exact Hid|split; [|split]]]].
  - rewrite <- app_assoc. apply list_lookup_middle. reflexivity.
  - intros k Hk. unfold o. rewrite obj_get_set.
    destruct (String.eqb k "id") eqn:E; [apply String.eqb_eq in E; congruence|reflexivity].
  - apply lookup_insert_eq.
  - unfold row. rewrite obj_get_merge_defined; rewrite Hid; [reflexivity|discriminate].
Qed.

(** C10: no read of the facade ([findOneOrFail], [findOne], [findMany],
    [findAll], [query]) calls the invalidation trigger: each leaves the
    store unchanged and makes store reads only. *)
Theorem reads_never_trigger :
  (forall id q, no_trigger (findOneOrFail id q)) /\
  (forall id q, no_trigger (findOne id q)) /\
  (forall ids q, no_trigger (findMany ids q)) /\
  (forall q, no_trigger (findAll q)) /\
  (forall q opts, no_trigger (query q opts)).
Proof.
  split; [intros; apply read_only_no_trigger, findOneOrFail_read_only|].
  split; [intros; apply read_only_no_trigger, findOne_read_only|].
  split; [intros; apply read_only_no_trigger, findMany_read_only|].
  split; [intros; apply read_only_no_trigger, findAll_read_only|].
  intros; apply read_only_no_trigger, query_read_only.
Qed.

(** C3 (as the code has it): [query q options] asks the store's paginate
    capability for one page exactly when the single reserved key
    [PAGINATE_KEY] of [q] holds a truthy value, passing the page and limit
    read inside that value with the options and the relations of [q];
    otherwise it fetches the full set with the options and the relations.
    Either way the result is the projection through [q] of what was
    fetched. *)
Theorem query_mode_follows_paginate_key (s : st) q opts :
  let p := obj_get q PAGINATE_KEY in
  let rels := createTypeormRelationsArray q in
  let rs := apply_find_options opts (rows_list (rows s)) in
  (truthy p = true ->
   query q opts s =
     (match parseQuery q (paginate (jget p PAGINATE_PAGE) (jget p PAGINATE_LIMIT) rs) with
      | Some v => Ok v
      | None => Err ProjectionFailure
      end,
      mkSt (rows s) (log s ++ [EvPaginate (jget p PAGINATE_PAGE) (jget p PAGINATE_LIMIT) opts rels]))) /\
  (truthy p = false ->
   query q opts s =
     (match parseQuery q (JArr (map JObj rs)) with
      | Some v => Ok v
      | None => Err ProjectionFailure
      end,
      mkSt (rows s) (log s ++ [EvFind opts (Some rels)]))).
Proof.
  intros p rels rs. rewrite query_run. fold p.
  split; intros Hp; rewrite Hp; reflexivity.
Qed.

(** ** Further properties of the facade *)

Local Abbreviation oneEntityListener := (oneEntityListener createTypeormRelationsArray).
Local Abbreviation manyEntitiesListener := (manyEntitiesListener createTypeormRelationsArray).
Local Abbreviation querySubscriptionListener :=
  (querySubscriptionListener createTypeormRelationsArray apply_find_options paginate
     PAGINATE_KEY PAGINATE_PAGE PAGINATE_LIMIT).

Lemma findMany_run s ids :
  ids <> [] ->
  findMany ids None s =
    (Ok (JArr (map JObj (rows_with_ids (rows s) ids))),
     mkSt (rows s) (log s ++ [EvFindByIds ids None])).
Proof.
  intros Hne. destruct ids as [|j ids']; [congruence|].
  unfold Facade.findMany, repo_findByIds, bind, emit, get_rows, ret.
  cbn -[rows_with_ids]. reflexivity.
Qed.

Lemma fst_findOneOrFail_rows s1 s2 id q :
  rows s1 = rows s2 -> fst (findOneOrFail id q s1) = fst (findOneOrFail id q s2).
Proof. intros H. rewrite !findOneOrFail_run, H. destruct q; reflexivity. Qed.

Lemma update_rows s id entity q :
  rows (snd (update id entity q s)) =
    <[id := obj_merge (default [] (rows s !! id)) (obj_set entity "id" (JStr id))]> (rows s).
Proof. rewrite update_run. exact (proj1 (findOneOrFail_read_only _ _ _)). Qed.

(** [update id partial q] never rejects with [EntityNotFound]: it returns
    the row it has just written (merged into the previous row, if any),
    projected through [q] when one is given. *)
Theorem update_returns_written_row (s : st) id entity q :
  let row := obj_merge (default [] (rows s !! id)) (obj_set entity "id" (JStr id)) in
  fst (update id entity q s) =
    match q with
    | Some q' =>
        match parseQuery q' (JObj row) with
        | Some v => Ok v
        | None => Err ProjectionFailure
        end
    | None => Ok (JObj row)
    end.
Proof.
  intros row. rewrite update_run, findOneOrFail_run. cbn [rows fst].
  rewrite lookup_insert_eq. destruct q; reflexivity.
Qed.

(** The value [update] (and [upsert] of an entity with an id) returns is
    what a [findOneOrFail] of the same id and query run right after it
    returns. *)
Theorem mutation_result_matches_reread (s : st) id entity q :
  fst (findOneOrFail id q (snd (update id entity q s))) = fst (update id entity q s) /\
  (forall e i, id_of e = Some i ->
     fst (findOneOrFail i q (snd (upsert e q s))) = fst (upsert e q s)).
Proof.
  split.
  - rewrite update_run. apply fst_findOneOrFail_rows.
    exact (proj1 (findOneOrFail_read_only _ _ _)).
  - intros e i Hi. rewrite (upsert_run s e i q Hi). apply fst_findOneOrFail_rows.
    exact (proj1 (findOneOrFail_read_only _ _ _)).
Qed.

(** After [delete id], [findOne id] gives [undefined] and
    [findOneOrFail id q] rejects with [EntityNotFound]. *)
Theorem delete_then_reads_find_nothing (s : st) id q :
  fst (findOne id None (snd (Facade.delete id s))) = Ok JUndef /\
  fst (findOneOrFail id q (snd (Facade.delete id s))) = Err EntityNotFound.
Proof.
  rewrite delete_run, findOne_run, findOneOrFail_run. cbn [snd rows].
  rewrite lookup_delete_eq. destruct q; split; reflexivity.
Qed.

(** [deleteMany ids] on a non-empty list removes exactly the rows of
    [ids], keeps every other row, and a [findMany ids] afterwards finds
    nothing. *)
Theorem deleteMany_removes_exactly_listed (s : st) ids :
  ids <> [] ->
  (forall i, rows (snd (deleteMany ids s)) !! i =
             if decide (i ∈ ids) then None else rows s !! i) /\
  fst (findMany ids None (snd (deleteMany ids s))) = Ok (JArr []).
Proof.
  intros Hne. rewrite (deleteMany_run s ids Hne). cbn [snd rows]. split.
  - intros i. apply delete_rows_lookup.
  - rewrite (findMany_run _ ids Hne). cbn [fst rows].
    rewrite rows_with_ids_none; [reflexivity|].
    intros i Hi. rewrite delete_rows_lookup. destruct (decide (i ∈ ids)); [reflexivity|contradiction].
Qed.

(** After [upsertMany es q] on a non-empty batch of entities carrying ids,
    every id of the batch has a row, and every other row is unchanged. *)
Theorem upsertMany_stores_every_entity (s : st) es q :
  es <> [] -> Forall (fun e => is_Some (id_of e)) es ->
  (forall i, i ∈ entity_ids es -> is_Some (rows (snd (upsertMany es q s)) !! i)) /\
  (forall i, i ∉ entity_ids es -> rows (snd (upsertMany es q s)) !! i = rows s !! i).
Proof.
  intros Hne Hids. destruct (upsertMany_run s es q Hne Hids) as [r' [Hr' Hrun]].
  rewrite Hrun, (proj1 (findMany_read_only _ _ _)). cbn [rows].
  apply save_rows_lookup. exact Hr'.
Qed.

(** [findOne] and [findOneOrFail] return the same thing when the row
    exists; when it does not, [findOne] without a query gives [undefined]
    where [findOneOrFail] rejects with [EntityNotFound]. *)
Theorem findOne_agrees_with_findOneOrFail (s : st) id q :
  (is_Some (rows s !! id) -> fst (findOne id q s) = fst (findOneOrFail id q s)) /\
  (rows s !! id = None ->
   fst (findOne id None s) = Ok JUndef /\ fst (findOneOrFail id q s) = Err EntityNotFound).
Proof.
  rewrite !findOne_run, !findOneOrFail_run. split.
  - intros [row Hrow]. rewrite Hrow. destruct q; reflexivity.
  - intros H. rewrite H. destruct q; split; reflexivity.
Qed.

(** [findAll q] is [query q] without options whenever [q] asks for no
    page: both make the same store call and return the same value. *)
Theorem findAll_is_unpaginated_query (s : st) q :
  truthy (obj_get q PAGINATE_KEY) = false -> findAll (Some q) s = query q JUndef s.
Proof.
  intros Hp. unfold Facade.findAll, Facade.query, provisionQuery. rewrite Hp. reflexivity.
Qed.

(** The recomputations of the three subscription kinds only read the
    store: they never call the invalidation trigger, so a recompute cannot
    set off another round of invalidation. *)
Theorem subscription_listeners_never_trigger :
  (forall id q, no_trigger (oneEntityListener id q)) /\
  (forall ids q, no_trigger (manyEntitiesListener ids q)) /\
  (forall q opts, no_trigger (querySubscriptionListener q opts)).
Proof.
  split; [|split]; intros; apply read_only_no_trigger.
  - unfold Facade.oneEntityListener, repo_findOneOrFail. ro.
  - unfold Facade.manyEntitiesListener, repo_findByIds. ro.
  - unfold Facade.querySubscriptionListener, provisionQuery, repo_paginate, repo_find. ro.
Qed.

(** A listener's raw result, projected through the subscription's query,
    is the matching facade read (for [findMany], on a non-empty id list).
    Unlike [findMany], the many-entities listener calls the store also for
    an empty id list, and returns the empty list. *)
Theorem subscription_listeners_match_reads (s : st) id ids q opts :
  findOneOrFail id (Some q) s =
    bind (oneEntityListener id q) (fun v => of_projection (parseQuery q v)) s /\
  (ids <> [] ->
   findMany ids (Some q) s =
     bind (manyEntitiesListener ids q) (fun v => of_projection (parseQuery q v)) s) /\
  query q opts s =
    bind (querySubscriptionListener q opts) (fun v => of_projection (parseQuery q v)) s /\
  manyEntitiesListener [] q s =
    (Ok (JArr []), mkSt (rows s) (log s ++ [EvFindByIds [] (Some (createTypeormRelationsArray q))])).
Proof.
  split; [reflexivity|]. split; [|split; [reflexivity|]].
  - intros Hne. destruct ids as [|j ids']; [congruence|reflexivity].
  - unfold Facade.manyEntitiesListener, repo_findByIds, bind, emit, get_rows, ret.
    cbn -[rows_with_ids]. rewrite rows_with_ids_none; [reflexivity|].
    intros i Hi. inversion Hi.
Qed.

(** Running the same [update] again changes nothing: every field of the
    row reads as after the first run, and every other row is unchanged. *)
Theorem update_retry_changes_nothing (s : st) id entity q :
  let s1 := snd (update id entity q s) in
  let s2 := snd (update id entity q s1) in
  (forall i, i <> id -> rows s2 !! i = rows s1 !! i) /\
  exists row1 row2,
    rows s1 !! id = Some row1 /\ rows s2 !! id = Some row2 /\
    forall k, obj_get row2 k = obj_get row1 k.
Proof.
  intros s1 s2. subst s1 s2. rewrite !update_rows.
  set (o := obj_set entity "id" (JStr id)).
  set (row1 := obj_merge (default [] (rows s !! id)) o).
  replace (default [] (<[id:=row1]> (rows s) !! id)) with row1
    by (rewrite lookup_insert_eq; reflexivity).
  split.
  - intros i Hi. rewrite !lookup_insert_ne; [reflexivity|congruence|congruence].
  - exists row1, (obj_merge row1 o). rewrite !lookup_insert_eq.
    split; [reflexivity|split; [reflexivity|]].
    intros k. unfold row1. rewrite !obj_get_merge. destruct (first_defined o k); reflexivity.
Qed.

End Runs.

(** ** The REST clients *)


(** ** The facade on concrete inputs *)

Definition q_name : obj := [("id", JBool true); ("name", JBool true)]%string.

Definition q_page : obj :=
  [(paginate_key, JObj [("page", JNum 2); ("limit", JNum 1)]); ("name", JBool true)]%string.

Example update_example :
  fst (update relations_of shallow_parse "a" [("age", JNum 31)]%string (Some q_name) store_ab)
  = Ok (JObj [("id", JStr "a"); ("name", JStr "Ann")])%string.
Proof. vm_compute. reflexivity. Qed.

Example findOneOrFail_missing_example :
  fst (findOneOrFail relations_of shallow_parse "c" (Some q_name) store_ab) = Err EntityNotFound.
Proof. vm_compute. reflexivity. Qed.

Example query_page_example :
  fst (query relations_of shallow_parse no_options page_of paginate_key paginate_page
         paginate_limit q_page JUndef store_ab)
  = Ok (JObj [("items", JArr [JObj [("name", JStr "Bob")]]);
              ("meta", JObj [("totalItems", JNum 2); ("currentPage", JNum 2)])])%string.
Proof. vm_compute. reflexivity. Qed.

(** ** Witnesses *)

Definition row_c : obj := [("id", JStr "c"); ("name", JStr "Cy")]%string.

Lemma mutations_trigger_between_write_and_result_witness :
  ([row_a; row_c] <> [] /\ Forall (fun e => is_Some (id_of e)) [row_a; row_c]) /\
  exists r', save_rows (rows store_ab) [row_a; row_c] = Some r' /\
    upsertMany relations_of shallow_parse [row_a; row_c] (Some q_name) store_ab =
      findMany relations_of shallow_parse (entity_ids [row_a; row_c]) (Some q_name)
        (mkSt r' (log store_ab ++ [EvSaveMany [row_a; row_c];
                                   EvTrigger (TrigMany (entity_ids [row_a; row_c])) r'])) /\
    rows (snd (upsertMany relations_of shallow_parse [row_a; row_c] (Some q_name) store_ab)) = r'.
Proof.
  assert (Hf : Forall (fun e => is_Some (id_of e)) [row_a; row_c])
    by (constructor; [eexists; reflexivity|constructor; [eexists; reflexivity|constructor]]).
  split; [split; [discriminate|exact Hf]|].
  destruct (mutations_trigger_between_write_and_result relations_of shallow_parse store_ab)
    as (_ & _ & H & _).
  apply H; [discriminate|exact Hf].
Defined.

Lemma update_partial_upsert_by_id_witness :
  let entity := [("age", JNum 31)]%string in
  let row := obj_merge (default [] (rows store_ab !! "a")) (obj_set entity "id" (JStr "a")) in
  ("age"%string <> "id"%string /\ obj_get entity "age" <> JUndef /\
   obj_get row "age" = obj_get entity "age") /\
  (rows store_ab !! "a" = Some row_a /\ "name"%string <> "id"%string /\
   ~ In "name"%string (map fst entity) /\ obj_get row "name" = obj_get row_a "name").
Proof.
  destruct (update_partial_upsert_by_id relations_of shallow_parse store_ab "a"
              [("age", JNum 31)]%string (Some q_name)) as (_ & H1 & H2 & _).
  assert (Hn : ~ In "name"%string (map fst [("age", JNum 31)]%string))
    by (simpl; intros [H|[]]; discriminate).
  split; split; [discriminate|split; [discriminate|]|reflexivity|split; [discriminate|split]].
  - apply H1; discriminate.
  - exact Hn.
  - apply H2; [reflexivity|discriminate|exact Hn].
Defined.

Lemma upsertMany_batch_write_trigger_reread_witness :
  ([row_a; row_c] <> [] /\ Forall (fun e => is_Some (id_of e)) [row_a; row_c]) /\
  Forall2 (fun e i => id_of e = Some i) [row_a; row_c] (entity_ids [row_a; row_c]) /\
  exists r', save_rows (rows store_ab) [row_a; row_c] = Some r' /\
    upsertMany relations_of shallow_parse [row_a; row_c] None store_ab =
      findMany relations_of shallow_parse (entity_ids [row_a; row_c]) None
        (mkSt r' (log store_ab ++ [EvSaveMany [row_a; row_c];
                                   EvTrigger (TrigMany (entity_ids [row_a; row_c])) r'])).
Proof.
  assert (Hf : Forall (fun e => is_Some (id_of e)) [row_a; row_c])
    by (constructor; [eexists; reflexivity|constructor; [eexists; reflexivity|constructor]]).
  split; [split; [discriminate|exact Hf]|].
  apply (upsertMany_batch_write_trigger_reread relations_of shallow_parse store_ab
           [row_a; row_c] None); [discriminate|exact Hf].
Defined.

Lemma delete_and_deleteMany_results_witness :
  ["a"; "b"]%string <> [] /\
  deleteMany ["a"; "b"]%string store_ab =
    (Ok ["a"; "b"]%string,
     mkSt (delete_rows (rows store_ab) ["a"; "b"]%string)
       (log store_ab ++ [EvDeleteMany ["a"; "b"]%string;
                         EvTrigger (TrigMany ["a"; "b"]%string)
                                   (delete_rows (rows store_ab) ["a"; "b"]%string)])).
Proof.
  split; [discriminate|].
  apply (proj2 (delete_and_deleteMany_results store_ab "a" ["a"; "b"]%string)).
  discriminate.
Defined.

Lemma update_saves_argument_id_witness :
  let entity := [("id", JStr "zzz"); ("age", JNum 31)]%string in
  let s' := snd (update relations_of shallow_parse "a" entity None store_ab) in
  exists o row,
    log s' !! 0 = Some (EvSaveOne o) /\
    obj_get o "id" = JStr "a" /\
    ("age"%string <> "id"%string /\ obj_get o "age" = obj_get entity "age") /\
    rows s' !! "a" = Some row /\
    obj_get row "id" = JStr "a".
Proof.
  destruct (update_saves_argument_id relations_of shallow_parse store_ab "a"
              [("id", JStr "zzz"); ("age", JNum 31)]%string None)
    as (o & row & H1 & _ & H3 & H4 & H5 & H6).
  exists o, row. split; [exact H1|split; [exact H3|split; [split|split]]].
  - discriminate.
  - apply H4. discriminate.
  - exact H5.
  - exact H6.
Defined.

Lemma query_mode_follows_paginate_key_witness :
  truthy (obj_get q_page paginate_key) = true /\
  query relations_of shallow_parse no_options page_of paginate_key paginate_page paginate_limit
        q_page JUndef store_ab =
    (match shallow_parse q_page (page_of (JNum 2) (JNum 1) (rows_list (rows store_ab))) with
     | Some v => Ok v
     | None => Err ProjectionFailure
     end,
     mkSt (rows store_ab) [EvPaginate (JNum 2) (JNum 1) JUndef (relations_of q_page)]).
Proof.
  split; [reflexivity|].
  exact (proj1 (query_mode_follows_paginate_key relations_of shallow_parse no_options page_of
                  paginate_key paginate_page paginate_limit store_ab q_page JUndef) eq_refl).
Defined.

Lemma mutation_result_matches_reread_witness :
  id_of row_c = Some "c"%string /\
  fst (findOneOrFail relations_of shallow_parse "c" (Some q_name)
         (snd (upsert relations_of shallow_parse row_c (Some q_name) store_ab)))
  = fst (upsert relations_of shallow_parse row_c (Some q_name) store_ab).
Proof.
  split; [reflexivity|].
  apply (proj2 (mutation_result_matches_reread relations_of shallow_parse store_ab "a"
                  [] (Some q_name))).
  reflexivity.
Defined.

Lemma deleteMany_removes_exactly_listed_witness :
  ["a"]%string <> [] /\
  rows (snd (deleteMany ["a"]%string store_ab)) !! "b"%string = rows store_ab !! "b"%string /\
  fst (findMany relations_of shallow_parse ["a"]%string None
         (snd (deleteMany ["a"]%string store_ab))) = Ok (JArr []).
Proof.
  destruct (deleteMany_removes_exactly_listed relations_of shallow_parse store_ab
              ["a"]%string ltac:(discriminate)) as [H1 H2].
  split; [discriminate|split; [|exact H2]].
  rewrite H1. reflexivity.
Defined.

Lemma upsertMany_stores_every_entity_witness :
  ([row_c] <> [] /\ Forall (fun e => is_Some (id_of e)) [row_c]) /\
  is_Some (rows (snd (upsertMany relations_of shallow_parse [row_c] None store_ab)) !! "c"%string) /\
  rows (snd (upsertMany relations_of shallow_parse [row_c] None store_ab)) !! "a"%string
  = rows store_ab !! "a"%string.
Proof.
  assert (Hf : Forall (fun e => is_Some (id_of e)) [row_c])
    by (constructor; [eexists; reflexivity|constructor]).
  destruct (upsertMany_stores_every_entity relations_of shallow_parse store_ab [row_c] None
              ltac:(discriminate) Hf) as [H1 H2].
  split; [split; [discriminate|exact Hf]|split].
  - apply H1. apply elem_of_cons; left; reflexivity.
  - apply H2. simpl. intros Hin. apply elem_of_cons in Hin as [Hin|Hin]; [discriminate|inversion Hin].
Defined.

Lemma findOne_agrees_with_findOneOrFail_witness :
  (is_Some (rows store_ab !! "a"%string) /\
   fst (findOne relations_of shallow_parse "a" (Some q_name) store_ab)
   = fst (findOneOrFail relations_of shallow_parse "a" (Some q_name) store_ab)) /\
  (rows store_ab !! "c"%string = None /\
   fst (findOne relations_of shallow_parse "c" None store_ab) = Ok JUndef /\
   fst (findOneOrFail relations_of shallow_parse "c" None store_ab) = Err EntityNotFound).
Proof.
  assert (Ha : is_Some (rows store_ab !! "a"%string)) by (eexists; reflexivity).
  assert (Hc : rows store_ab !! "c"%string = None) by reflexivity.
  split; split.
  - exact Ha.
  - apply (proj1 (findOne_agrees_with_findOneOrFail relations_of shallow_parse store_ab
                    "a" (Some q_name))). exact Ha.
  - exact Hc.
  - apply (proj2 (findOne_agrees_with_findOneOrFail relations_of shallow_parse store_ab
                    "c" None)). exact Hc.
Defined.

Lemma findAll_is_unpaginated_query_witness :
  truthy (obj_get q_name paginate_key) = false /\
  findAll relations_of shallow_parse no_options (Some q_name) store_ab =
  query relations_of shallow_parse no_options page_of paginate_key paginate_page paginate_limit
        q_name JUndef store_ab.
Proof.
  split; [reflexivity|].
  apply (findAll_is_unpaginated_query relations_of shallow_parse no_options page_of
           paginate_key paginate_page paginate_limit store_ab q_name).
  reflexivity.
Defined.

Lemma subscription_listeners_match_reads_witness :
  ["a"; "c"]%string <> [] /\
  findMany relations_of shallow_parse ["a"; "c"]%string (Some q_name) store_ab =
    bind (manyEntitiesListener relations_of ["a"; "c"]%string q_name)
         (fun v => of_projection (shallow_parse q_name v)) store_ab.
Proof.
  split; [discriminate|].
  apply (proj1 (proj2 (subscription_listeners_match_reads relations_of shallow_parse no_options
           page_of paginate_key paginate_page paginate_limit store_ab "a" ["a"; "c"]%string
           q_name JUndef))).
  discriminate.
Defined.

Lemma update_retry_changes_nothing_witness :
  "b"%string <> "a"%string /\
  rows (snd (update relations_of shallow_parse "a" [("age", JNum 31)]%string None
               (snd (update relations_of shallow_parse "a" [("age", JNum 31)]%string None
                       store_ab)))) !! "b"%string
  = rows (snd (update relations_of shallow_parse "a" [("age", JNum 31)]%string None
                 store_ab)) !! "b"%string.
Proof.
  split; [discriminate|].
  apply (proj1 (update_retry_changes_nothing relations_of shallow_parse store_ab "a"
                  [("age", JNum 31)]%string None)).
  discriminate.
Defined.


(** ** Counterexample *)

(** C3 as stated: a query carrying a page number and a page size as two
    top-level keys runs the full fetch, and a query whose only reserved
    key is the wrapper, with no top-level page or size, is paginated. *)
Lemma query_pagination_keys_counterexample :
  let q1 := [("page", JNum 1); ("limit", JNum 10)]%string in
  let q2 := [(paginate_key, JObj [("page", JNum 1); ("limit", JNum 10)])]%string in
  (In "page"%string (map fst q1) /\ In "limit"%string (map fst q1) /\
   log (snd (query relations_of shallow_parse no_options page_of paginate_key paginate_page
               paginate_limit q1 JUndef store_ab))
   = [EvFind JUndef (Some [])]) /\
  (~ In "page"%string (map fst q2) /\ ~ In "limit"%string (map fst q2) /\
   log (snd (query relations_of shallow_parse no_options page_of paginate_key paginate_page
               paginate_limit q2 JUndef store_ab))
   = [EvPaginate (JNum 1) (JNum 10) JUndef []]).
Proof.
  split; split.
  - simpl. left. reflexivity.
  - split; [simpl; right; left; reflexivity|vm_compute; reflexivity].
  - simpl. intros [H|[]]. discriminate.
  - split; [simpl; intros [H|[]]; discriminate|vm_compute; reflexivity].
Qed.
